(** * Plan resolution of [parallelize_module]

    A shallow embedding of
    [torch/distributed/tensor/parallel/api.py]: the module tree lives in an
    object store (modules are Python objects, mutated in place and shared by
    reference), the process-wide RNG tracker is a field of the state, and
    exceptions are an explicit outcome that keeps the state reached when
    they were raised. *)

From Stdlib Require Import String Ascii List Arith Lia Bool.
From stdpp Require Import base option gmap.
Import ListNotations.

Local Open Scope string_scope.
Local Open Scope list_scope.

(** ** Data model *)

(** A module object: its ordered [_modules] mapping (child name to child
    object, in declaration order) and its own contents (parameters,
    buffers), which this algorithm never inspects. *)
Record Module := mkModule {
  _modules : list (string * nat);
  contents : nat
}.

(** The device mesh, as far as the algorithm looks at it. *)
Record DeviceMesh := mkDeviceMesh {
  ndim : nat;
  device_type : string;
  rng_supported : bool
}.

Inductive TrackerClass := OffsetBasedRNGTracker | TensorParallelRNGTracker.

(** The object held by the global [random._rng_tracker]. *)
Record RngTracker := mkRngTracker {
  tracker_id : nat;
  tracker_class : TrackerClass;
  tracker_device : string;
  tracker_seed : option (DeviceMesh * nat);
  distribute_region_enabled : bool
}.

(** Program state: the object store of modules, the global tracker and the
    identity the next constructed tracker object receives. *)
Record State := mkState {
  heap : gmap nat Module;
  _rng_tracker : option RngTracker;
  next_tracker_id : nat
}.

(** [ParallelStyle]: an object with an [_apply(module, device_mesh)] method.
    The method may rewrite the store (styles usually distribute the module
    in place) and returns the resulting module object. *)
Record ParallelStyle := mkStyle {
  _apply : nat -> DeviceMesh -> gmap nat Module -> gmap nat Module * nat
}.

(** The [parallelize_plan] argument: a style, a dict from module path to
    style (in insertion order), or any other Python value. *)
Inductive Plan :=
| PlanStyle (style : ParallelStyle)
| PlanDict (items : list (string * ParallelStyle))
| PlanOther.

(** Exceptions the entry point can raise.  [InvalidTopologyError] and
    [InvalidPlanKeyError] are [ValueError]s in the source,
    [InvalidPlanTypeError] is the [TypeError] of the last branch,
    [LookupFault] the wrapped [RuntimeError] of lines 123-126.  Child
    lookup in this model either finds the child or reports it missing, so
    [LookupFault] is never raised here. *)
Inductive Exn :=
| InvalidTopologyError
| InvalidPlanKeyError
| LookupFault
| AssertionError
| InvalidPlanTypeError.

Inductive outcome (A : Type) :=
| Return (a : A)
| Raise (e : Exn)
| OutOfFuel.
Arguments Return {A} a.
Arguments Raise {A} e.
Arguments OutOfFuel {A}.

(** ** A state and exception monad *)

Definition M (A : Type) : Type := State -> outcome A * State.

Definition ret {A} (a : A) : M A := fun st => (Return a, st).
Definition raise {A} (e : Exn) : M A := fun st => (Raise e, st).
Definition bind {A B} (m : M A) (k : A -> M B) : M B :=
  fun st =>
    match m st with
    | (Return a, st') => k a st'
    | (Raise e, st') => (Raise e, st')
    | (OutOfFuel, st') => (OutOfFuel, st')
    end.

Notation "x <- m ;; k" := (bind m (fun x => k))
  (at level 100, m at next level, right associativity).
Notation "m ;;; k" := (bind m (fun _ => k))
  (at level 100, right associativity).

(** [post P E m]: from a state in [P], [m] ends in a state in [P], does not
    run out of fuel, and raises only exceptions in [E]. *)
Definition post {A} (P : State -> Prop) (E : Exn -> Prop) (m : M A) : Prop :=
  forall st, P st ->
    P (snd (m st)) /\ fst (m st) <> OutOfFuel /\
    (forall e, fst (m st) = Raise e -> E e).

(** ** Strings: [str.split(".")] and [".".join] *)

Fixpoint split_dot (s : string) : list string :=
  match s with
  | EmptyString => [EmptyString]
  | String c s' =>
      if Ascii.eqb c "."%char then EmptyString :: split_dot s'
      else match split_dot s' with
           | [] => [String c EmptyString]
           | x :: xs => String c x :: xs
           end
  end.

Definition join_dot (l : list string) : string := String.concat "." l.

(** ** The collaborators of the entry point *)

Fixpoint lookup_child (name : string) (cs : list (string * nat)) : option nat :=
  match cs with
  | [] => None
  | (n, c) :: cs' => if String.eqb n name then Some c else lookup_child name cs'
  end.

(** [_modules[name] = child] on an ordered mapping: an existing name keeps
    its position, a new name is appended. *)
Fixpoint assign_child (name : string) (child : nat) (cs : list (string * nat))
  : list (string * nat) :=
  match cs with
  | [] => [(name, child)]
  | (n, c) :: cs' =>
      if String.eqb n name then (n, child) :: cs'
      else (n, c) :: assign_child name child cs'
  end.

(** Modelled from the spec: [nn.Module.get_submodule] for a single name,
    the "look up an immediate child by name (may report not-found)"
    capability.  [None] is the [AttributeError] case. *)
Definition get_submodule (h : gmap nat Module) (m : nat) (atom : string) : option nat :=
  match h !! m with
  | Some md => lookup_child atom (_modules md)
  | None => None
  end.

(** Modelled from the spec: [nn.Module.children], the immediate children in
    declaration order.  The loop of line 104 runs over the children the
    parent has when the loop starts. *)
Definition children (h : gmap nat Module) (m : nat) : list nat :=
  match h !! m with
  | Some md => map snd (_modules md)
  | None => []
  end.

(** Modelled from the spec: [nn.Module.register_module], the "replace a
    named child with a new node" capability, as the assignment of the child
    to the name in the parent's [_modules].  The spec speaks of names that
    are children already; any other name is added at the end, as an
    assignment to an ordered mapping does. *)
Definition register_module (parent : nat) (name : string) (child : nat)
  (h : gmap nat Module) : gmap nat Module :=
  match h !! parent with
  | Some md =>
      <[parent := mkModule (assign_child name child (_modules md)) (contents md)]> h
  | None => h
  end.

(** Modelled from the spec: [_validate_tp_mesh_dim], which accepts exactly
    the one-dimensional meshes. *)
Definition _validate_tp_mesh_dim (device_mesh : DeviceMesh) : M unit :=
  if Nat.eqb (ndim device_mesh) 1 then ret tt else raise InvalidTopologyError.

(** Modelled from the spec: [is_rng_supported_mesh], a capability of the
    mesh. *)
Definition is_rng_supported_mesh (device_mesh : DeviceMesh) : bool :=
  rng_supported device_mesh.

Definition isinstance_tp (t : option RngTracker) : bool :=
  match t with
  | Some tr =>
      match tracker_class tr with
      | TensorParallelRNGTracker => true
      | OffsetBasedRNGTracker => false
      end
  | None => false
  end.

Definition base_seed : nat := 1234.

(** Lines 76-85: instantiate a TP RNG state tracker if it is not there. *)
Definition rng_bootstrap (device_mesh : DeviceMesh) (st : State) : State :=
  if is_rng_supported_mesh device_mesh && negb (isinstance_tp (_rng_tracker st))
  then
    mkState (heap st)
      (Some (mkRngTracker (next_tracker_id st) TensorParallelRNGTracker
               (device_type device_mesh) (Some (device_mesh, base_seed)) false))
      (S (next_tracker_id st))
  else st.

Definition call_style (style : ParallelStyle) (module : nat)
  (device_mesh : DeviceMesh) : M nat :=
  fun st =>
    let '(h', r) := _apply style module device_mesh (heap st) in
    (Return r, mkState h' (_rng_tracker st) (next_tracker_id st)).

Definition do_register (parent : nat) (name : string) (child : nat) : M unit :=
  fun st =>
    (Return tt,
     mkState (register_module parent name child (heap st))
       (_rng_tracker st) (next_tracker_id st)).

(** ** The entry point *)

Section Body.
(** The recursive calls of [parallelize_module] made by the loops. *)
Variable rec : nat -> DeviceMesh -> Plan -> M nat.
Variable device_mesh : DeviceMesh.
Variable parallelize_style : ParallelStyle.

(** Lines 104-110: the loop over [parent_module.children()]. *)
Fixpoint for_children (leaf_path : string) (subs : list nat) : M unit :=
  match subs with
  | [] => ret tt
  | submodule :: subs' =>
      (if negb (String.eqb leaf_path "")
       then rec submodule device_mesh (PlanDict [(leaf_path, parallelize_style)])
       else rec submodule device_mesh (PlanStyle parallelize_style)) ;;;
      for_children leaf_path subs'
  end.

(** Lines 98-126: the [while path_splits] loop.  It yields
    [parent_module], [leaf_module] ([None] after the [break]) and
    [atom]. *)
Fixpoint while_path_splits (path_splits : list string)
  (parent_module leaf_module : nat) (atom : string)
  : M (nat * option nat * string) :=
  match path_splits with
  | [] => ret (parent_module, Some leaf_module, atom)
  | atom :: path_splits =>
      if String.eqb atom "*" then
        let leaf_path := join_dot path_splits in
        (fun st => for_children leaf_path (children (heap st) parent_module) st) ;;;
        while_path_splits path_splits parent_module leaf_module atom
      else
        let parent_module := leaf_module in
        fun st =>
          match get_submodule (heap st) leaf_module atom with
          | Some sub =>
              while_path_splits path_splits parent_module sub atom st
          | None => ret (parent_module, None, atom) st
          end
  end.

(** Lines 91-140: the body of the loop over [parallelize_plan.items()]. *)
Definition plan_item (module : nat) (module_path : string) : M unit :=
  let path_splits := split_dot module_path in
  if Nat.eqb (length path_splits) 0 then raise InvalidPlanKeyError
  else
    r <- while_path_splits path_splits module module "" ;;
    let '(parent_module, leaf_module, atom) := r in
    match leaf_module with
    | None => ret tt
    | Some leaf_module =>
        if Nat.eqb (String.length atom) 0 then raise AssertionError
        else
          new <- rec leaf_module device_mesh (PlanStyle parallelize_style) ;;
          do_register parent_module atom new
    end.
End Body.

(** Line 90: the loop over the items of the dict. *)
Fixpoint for_items (rec : nat -> DeviceMesh -> Plan -> M nat)
  (device_mesh : DeviceMesh) (module : nat)
  (items : list (string * ParallelStyle)) : M unit :=
  match items with
  | [] => ret tt
  | (module_path, parallelize_style) :: items' =>
      plan_item rec device_mesh parallelize_style module module_path ;;;
      for_items rec device_mesh module items'
  end.

(** [parallelize_module], one unit of fuel per call. *)
Fixpoint parallelize_module_fuel (fuel : nat) (module : nat)
  (device_mesh : DeviceMesh) (parallelize_plan : Plan) : M nat :=
  match fuel with
  | 0 => fun st => (OutOfFuel, st)
  | S fuel' =>
      _validate_tp_mesh_dim device_mesh ;;;
      (fun st => ret tt (rng_bootstrap device_mesh st)) ;;;
      match parallelize_plan with
      | PlanStyle style => call_style style module device_mesh
      | PlanDict items =>
          for_items (parallelize_module_fuel fuel') device_mesh module items ;;;
          ret module
      | PlanOther => raise InvalidPlanTypeError
      end
  end.

(** The recursion is on ever shorter paths: a dict plan needs two more
    calls than its longest key has characters. *)
Definition plan_fuel (p : Plan) : nat :=
  match p with
  | PlanDict items => 2 + list_max (map (fun kv => String.length (fst kv)) items)
  | _ => 1
  end.

Definition parallelize_module (module : nat) (device_mesh : DeviceMesh)
  (parallelize_plan : Plan) : M nat :=
  parallelize_module_fuel (plan_fuel parallelize_plan) module device_mesh
    parallelize_plan.

(** ** Concrete styles and trees *)

(** A style that distributes the module in place and returns it. *)
Definition InPlaceStyle : ParallelStyle :=
  mkStyle (fun m _ h =>
    match h !! m with
    | Some md => (<[m := mkModule (_modules md) (S (contents md))]> h, m)
    | None => (h, m)
    end).

(** A style that returns a new module object wrapping the original. *)
Definition WrapStyle : ParallelStyle :=
  mkStyle (fun m _ h =>
    let l := fresh (dom h) in
    (<[l := mkModule [("inner", m)] 0]> h, l)).

Definition mesh1 : DeviceMesh := mkDeviceMesh 1 "cuda" true.
Definition mesh2 : DeviceMesh := mkDeviceMesh 2 "cuda" true.

Definition leaf (c : nat) : Module := mkModule [] c.

Definition state_of (h : gmap nat Module) : State := mkState h None 0.

(** The tracker that the bootstrap installs in [state_of h] for [mesh1]. *)
Definition tracker1 : RngTracker :=
  mkRngTracker 0 TensorParallelRNGTracker "cuda" (Some (mesh1, base_seed)) false.

(** root{a{k1: X1, k2: X2}}: root is object 0, a is 1, X1 is 2, X2 is 3. *)
Definition tree_fanout : gmap nat Module :=
  list_to_map
    [(0, mkModule [("a", 1)] 0);
     (1, mkModule [("k1", 2); ("k2", 3)] 0);
     (2, leaf 0);
     (3, leaf 0)].

(** root{p{m{lin: X}, n{}}}: root 0, p 1, m 2, n 3, X 4. *)
Definition tree_irregular : gmap nat Module :=
  list_to_map
    [(0, mkModule [("p", 1)] 0);
     (1, mkModule [("m", 2); ("n", 3)] 0);
     (2, mkModule [("lin", 4)] 0);
     (3, leaf 0);
     (4, leaf 0)].

(** root{a{b{c: X}}}: root 0, a 1, b 2, X 3. *)
Definition tree_chain : gmap nat Module :=
  list_to_map
    [(0, mkModule [("a", 1)] 0);
     (1, mkModule [("b", 2)] 0);
     (2, mkModule [("c", 3)] 0);
     (3, leaf 0)].

(** root{a{b: X}}: root 0, a 1, X 2. *)
Definition tree_short : gmap nat Module :=
  list_to_map
    [(0, mkModule [("a", 1)] 0);
     (1, mkModule [("b", 2)] 0);
     (2, leaf 0)].

(** root{k1: X1, k2: X2}: root 0, X1 1, X2 2. *)
Definition tree_flat : gmap nat Module :=
  list_to_map
    [(0, mkModule [("k1", 1); ("k2", 2)] 0);
     (1, leaf 0);
     (2, leaf 0)].

(** ** Notions used to state further properties *)

(** A string without a dot, as every segment that [split] yields. *)
Fixpoint dot_free (s : string) : bool :=
  match s with
  | EmptyString => true
  | String c s' => negb (Ascii.eqb c "."%char) && dot_free s'
  end.

(** Following a list of child names down from a module, one
    [get_submodule] per name. *)
Fixpoint resolve (h : gmap nat Module) (m : nat) (segs : list string) : option nat :=
  match segs with
  | [] => Some m
  | a :: rest =>
      match get_submodule h m a with
      | Some sub => resolve h sub rest
      | None => None
      end
  end.

(** The last segment of a module path. *)
Definition last_segment (module_path : string) : string :=
  List.last (split_dot module_path) "".

(** Plans all of whose keys satisfy [K]; the value that is neither a style
    nor a dict is admitted only when the exceptions in [E] include its
    [TypeError]. *)
Definition plan_ok (K : string -> Prop) (E : Exn -> Prop) (p : Plan) : Prop :=
  match p with
  | PlanStyle _ => True
  | PlanDict items => Forall (fun kv => K (fst kv)) items
  | PlanOther => E InvalidPlanTypeError
  end.

(** A 1-D mesh for which RNG coordination is not supported. *)
Definition mesh_cpu : DeviceMesh := mkDeviceMesh 1 "cpu" false.

(** A tracker of the other class, as another part of the system may have
    installed it. *)
Definition tracker_other : RngTracker :=
  mkRngTracker 7 OffsetBasedRNGTracker "cuda" None true.

(** ** Splitting and joining paths *)

Lemma split_dot_not_nil (s : string) : split_dot s <> [].
Proof.
  induction s as [|c s IH]; simpl; [discriminate|].
  destruct (Ascii.eqb c "."); [discriminate|].
  destruct (split_dot s); discriminate.
Qed.

Lemma join_dot_cons (a : string) (rest : list string) :
  rest <> [] -> join_dot (a :: rest) = (a ++ "." ++ join_dot rest)%string.
Proof. destruct rest; [congruence | reflexivity]. Qed.

Lemma join_dot_String (c : ascii) (x : string) (xs : list string) :
  join_dot (String c x :: xs) = String c (join_dot (x :: xs)).
Proof. destruct xs; reflexivity. Qed.

Lemma join_split (s : string) : join_dot (split_dot s) = s.
Proof.
  induction s as [|c s IH]; [reflexivity|].
  simpl. destruct (Ascii.eqb c ".") eqn:Hc.
  - apply Ascii.eqb_eq in Hc. subst c.
    rewrite join_dot_cons by (apply split_dot_not_nil).
    simpl. now rewrite IH.
  - destruct (split_dot s) as [|x xs] eqn:Hs.
    + exfalso. now apply (split_dot_not_nil s).
    + rewrite join_dot_String. now rewrite IH.
Qed.

Lemma string_length_app (s1 s2 : string) :
  String.length (s1 ++ s2)%string = String.length s1 + String.length s2.
Proof. induction s1 as [|c s1 IH]; simpl; [reflexivity | now rewrite IH]. Qed.

Lemma join_tail_le (a : string) (rest : list string) :
  String.length (join_dot rest) <= String.length (join_dot (a :: rest)).
Proof.
  destruct rest as [|b rest]; [simpl; lia|].
  rewrite (join_dot_cons a (b :: rest)) by discriminate.
  rewrite !string_length_app. lia.
Qed.

Lemma join_tail_lt (a : string) (rest : list string) :
  join_dot rest <> "" ->
  S (String.length (join_dot rest)) <= String.length (join_dot (a :: rest)).
Proof.
  intros Hne. destruct rest as [|b rest]; [exfalso; now apply Hne|].
  rewrite (join_dot_cons a (b :: rest)) by discriminate.
  rewrite !string_length_app. simpl. lia.
Qed.

(** ** Hoare-style rules for the monad *)

Lemma post_ret {A} P E (a : A) : post P E (ret a).
Proof. intros st HP. simpl. repeat split; [assumption | discriminate | discriminate]. Qed.

Lemma post_raise {A} (P : State -> Prop) (E : Exn -> Prop) e :
  E e -> post P E (@raise A e).
Proof.
  intros He st HP. simpl. repeat split; [assumption | discriminate |].
  intros e' [= <-]. exact He.
Qed.

Lemma post_bind {A B} P E (m : M A) (k : A -> M B) :
  post P E m -> (forall a, post P E (k a)) -> post P E (bind m k).
Proof.
  intros Hm Hk st HP. unfold bind.
  destruct (Hm st HP) as (HP' & Hfuel & Hexn).
  destruct (m st) as [[a|e|] st']; simpl in *.
  - now apply Hk.
  - repeat split; [assumption | discriminate |].
    intros e' [= <-]. now apply Hexn.
  - now destruct Hfuel.
Qed.

Section Hoare.
Variable P : State -> Prop.
Variable E : Exn -> Prop.
Hypothesis P_heap : forall st h,
  P st -> P (mkState h (_rng_tracker st) (next_tracker_id st)).
Hypothesis P_rng : forall mesh st, P st -> P (rng_bootstrap mesh st).
Hypothesis E_topology : E InvalidTopologyError.
Hypothesis E_assert : E AssertionError.
Hypothesis E_type : E InvalidPlanTypeError.

Lemma post_call_style style m mesh : post P E (call_style style m mesh).
Proof.
  intros st HP. unfold call_style.
  destruct (_apply style m mesh (heap st)) as [h' r]. simpl.
  repeat split; [now apply P_heap | discriminate | discriminate].
Qed.

Lemma post_do_register p n c : post P E (do_register p n c).
Proof.
  intros st HP. unfold do_register. simpl.
  repeat split; [now apply P_heap | discriminate | discriminate].
Qed.

Lemma post_validate mesh : post P E (_validate_tp_mesh_dim mesh).
Proof.
  unfold _validate_tp_mesh_dim.
  destruct (Nat.eqb (ndim mesh) 1); [apply post_ret | now apply post_raise].
Qed.

Section Loops.
Variable k : nat.
Variable rec : nat -> DeviceMesh -> Plan -> M nat.
Hypothesis rec_post : forall m mesh p, plan_fuel p <= k -> post P E (rec m mesh p).
Variable mesh : DeviceMesh.
Variable style : ParallelStyle.

Lemma post_for_children leaf_path subs :
  1 <= k ->
  (leaf_path <> "" -> 2 + String.length leaf_path <= k) ->
  post P E (for_children rec mesh style leaf_path subs).
Proof.
  intros H1 H2. induction subs as [|sub subs IH]; simpl.
  - apply post_ret.
  - apply post_bind; [|intros _; exact IH].
    destruct (String.eqb leaf_path "") eqn:Hl; simpl.
    + now apply rec_post.
    + apply rec_post. simpl. apply String.eqb_neq in Hl.
      specialize (H2 Hl). lia.
Qed.

Lemma post_while_path_splits path_splits parent_module leaf_module atom :
  1 + String.length (join_dot path_splits) <= k ->
  post P E (while_path_splits rec mesh style path_splits
              parent_module leaf_module atom).
Proof.
  revert parent_module leaf_module atom.
  induction path_splits as [|a rest IH]; intros parent_module leaf_module atom Hk; simpl.
  - apply post_ret.
  - pose proof (join_tail_le a rest) as Hle.
    destruct (String.eqb a "*").
    + apply post_bind; [|intros _; apply IH; lia].
      intros st HP. apply post_for_children; [lia | | exact HP].
      intros Hne. pose proof (join_tail_lt a rest Hne). lia.
    + intros st HP.
      destruct (get_submodule (heap st) leaf_module a).
      * apply IH; [lia | exact HP].
      * now apply post_ret.
Qed.

Lemma post_plan_item module module_path :
  1 + String.length module_path <= k ->
  post P E (plan_item rec mesh style module module_path).
Proof.
  intros Hk. unfold plan_item.
  destruct (split_dot module_path) as [|a rest] eqn:Hs.
  { exfalso. now apply (split_dot_not_nil module_path). }
  simpl Nat.eqb. cbv iota.
  apply post_bind.
  - apply post_while_path_splits. rewrite <- Hs, join_split. exact Hk.
  - intros [[parent_module [leaf_module|]] atom]; [|apply post_ret].
    destruct (Nat.eqb (String.length atom) 0); [now apply post_raise|].
    apply post_bind; [apply rec_post; simpl; lia|].
    intros new. apply post_do_register.
Qed.
End Loops.

Lemma post_for_items k rec mesh module items :
  (forall m mesh p, plan_fuel p <= k -> post P E (rec m mesh p)) ->
  1 + list_max (map (fun kv => String.length (fst kv)) items) <= k ->
  post P E (for_items rec mesh module items).
Proof.
  intros Hrec. induction items as [|[module_path style] items IH]; simpl; intros Hk.
  - apply post_ret.
  - apply post_bind.
    + apply post_plan_item with (k := k); [exact Hrec | lia].
    + intros _. apply IH. lia.
Qed.

Lemma post_parallelize_module_fuel fuel :
  forall module mesh plan,
    plan_fuel plan <= fuel ->
    post P E (parallelize_module_fuel fuel module mesh plan).
Proof.
  induction fuel as [|fuel IH]; intros module mesh plan Hfuel.
  { destruct plan; simpl in Hfuel; lia. }
  simpl. apply post_bind; [apply post_validate|]. intros _.
  apply post_bind.
  { intros st HP. simpl. repeat split; [now apply P_rng | discriminate | discriminate]. }
  intros _. destruct plan as [style|items|].
  - apply post_call_style.
  - apply post_bind; [|intros _; apply post_ret].
    apply post_for_items with (k := fuel); [exact IH|].
    simpl in Hfuel. lia.
  - now apply post_raise.
Qed.

Lemma post_parallelize_module module mesh plan :
  post P E (parallelize_module module mesh plan).
Proof. apply post_parallelize_module_fuel. lia. Qed.
End Hoare.

(** ** Independence of the fuel

    Any fuel of at least [plan_fuel] gives the same run, so
    [parallelize_module] satisfies the recursive equation of the source. *)

Lemma bind_ext {A B} (m1 m2 : M A) (k1 k2 : A -> M B) st :
  m1 st = m2 st -> (forall a st', k1 a st' = k2 a st') ->
  bind m1 k1 st = bind m2 k2 st.
Proof.
  intros Hm Hk. unfold bind. rewrite Hm.
  destruct (m2 st) as [[a| |] st']; [apply Hk | reflexivity | reflexivity].
Qed.

Section Agree.
Variable k : nat.
Variables rec1 rec2 : nat -> DeviceMesh -> Plan -> M nat.
Hypothesis rec_agree : forall m mesh p st,
  plan_fuel p <= k -> rec1 m mesh p st = rec2 m mesh p st.
Variable mesh : DeviceMesh.
Variable style : ParallelStyle.

Lemma for_children_agree leaf_path subs st :
  1 <= k ->
  (leaf_path <> "" -> 2 + String.length leaf_path <= k) ->
  for_children rec1 mesh style leaf_path subs st =
  for_children rec2 mesh style leaf_path subs st.
Proof.
  intros H1 H2. revert st. induction subs as [|sub subs IH]; intros st; simpl.
  - reflexivity.
  - apply bind_ext; [|intros _ st'; apply IH].
    destruct (String.eqb leaf_path "") eqn:Hl; simpl.
    + now apply rec_agree.
    + apply rec_agree. simpl. apply String.eqb_neq in Hl.
      specialize (H2 Hl). lia.
Qed.

Lemma while_path_splits_agree path_splits parent_module leaf_module atom st :
  1 + String.length (join_dot path_splits) <= k ->
  while_path_splits rec1 mesh style path_splits parent_module leaf_module atom st =
  while_path_splits rec2 mesh style path_splits parent_module leaf_module atom st.
Proof.
  revert parent_module leaf_module atom st.
  induction path_splits as [|a rest IH];
    intros parent_module leaf_module atom st Hk; simpl.
  - reflexivity.
  - pose proof (join_tail_le a rest) as Hle.
    destruct (String.eqb a "*").
    + apply bind_ext; [|intros _ st'; apply IH; lia].
      apply for_children_agree; [lia|].
      intros Hne. pose proof (join_tail_lt a rest Hne). lia.
    + destruct (get_submodule (heap st) leaf_module a); [|reflexivity].
      apply IH. lia.
Qed.

Lemma plan_item_agree module module_path st :
  1 + String.length module_path <= k ->
  plan_item rec1 mesh style module module_path st =
  plan_item rec2 mesh style module module_path st.
Proof.
  intros Hk. unfold plan_item.
  destruct (Nat.eqb (length (split_dot module_path)) 0); [reflexivity|].
  apply bind_ext.
  - apply while_path_splits_agree. now rewrite join_split.
  - intros [[parent_module [leaf_module|]] atom] st'; [|reflexivity].
    destruct (Nat.eqb (String.length atom) 0); [reflexivity|].
    apply bind_ext; [|reflexivity]. apply rec_agree. simpl. lia.
Qed.
End Agree.

Lemma for_items_agree k rec1 rec2 mesh module items st :
  (forall m mesh p st, plan_fuel p <= k -> rec1 m mesh p st = rec2 m mesh p st) ->
  1 + list_max (map (fun kv => String.length (fst kv)) items) <= k ->
  for_items rec1 mesh module items st = for_items rec2 mesh module items st.
Proof.
  intros Hrec. revert st.
  induction items as [|[module_path style] items IH]; simpl; intros st Hk.
  - reflexivity.
  - apply bind_ext.
    + apply plan_item_agree with (k := k); [exact Hrec | lia].
    + intros _ st'. apply IH. lia.
Qed.

Lemma parallelize_module_fuel_agree fuel1 :
  forall fuel2 module mesh plan st,
    plan_fuel plan <= fuel1 -> plan_fuel plan <= fuel2 ->
    parallelize_module_fuel fuel1 module mesh plan st =
    parallelize_module_fuel fuel2 module mesh plan st.
Proof.
  induction fuel1 as [|fuel1 IH]; intros fuel2 module mesh plan st H1 H2.
  { destruct plan; simpl in H1; lia. }
  destruct fuel2 as [|fuel2].
  { destruct plan; simpl in H2; lia. }
  simpl. apply bind_ext; [reflexivity|]. intros _ st1.
  apply bind_ext; [reflexivity|]. intros _ st2.
  destruct plan as [style|items|]; [reflexivity| |reflexivity].
  apply bind_ext; [|reflexivity].
  simpl in H1, H2.
  apply for_items_agree with (k := 1 + list_max (map (fun kv => String.length (fst kv)) items));
    [|lia].
  intros m mesh' p st' Hp. apply IH; lia.
Qed.

(** Enough fuel: the entry point never stops for lack of fuel. *)
Lemma parallelize_module_total module mesh plan st :
  fst (parallelize_module module mesh plan st) <> OutOfFuel.
Proof.
  refine (proj1 (proj2 (post_parallelize_module (fun _ => True) (fun _ => True)
            _ _ _ _ _ module mesh plan st I))); auto.
Qed.

Lemma parallelize_module_enough_fuel fuel module mesh plan st :
  plan_fuel plan <= fuel ->
  parallelize_module_fuel fuel module mesh plan st =
  parallelize_module module mesh plan st.
Proof. intros H. apply parallelize_module_fuel_agree; [exact H | lia]. Qed.

Lemma parallelize_module_fuel_S fuel module device_mesh parallelize_plan :
  parallelize_module_fuel (S fuel) module device_mesh parallelize_plan =
  (_validate_tp_mesh_dim device_mesh ;;;
   (fun st => ret tt (rng_bootstrap device_mesh st)) ;;;
   match parallelize_plan with
   | PlanStyle style => call_style style module device_mesh
   | PlanDict items =>
       for_items (parallelize_module_fuel fuel) device_mesh module items ;;;
       ret module
   | PlanOther => raise InvalidPlanTypeError
   end).
Proof. reflexivity. Qed.

(** The body of the source function, with its recursive calls. *)
Lemma parallelize_module_unfold module device_mesh parallelize_plan st :
  parallelize_module module device_mesh parallelize_plan st =
  (_validate_tp_mesh_dim device_mesh ;;;
   (fun st => ret tt (rng_bootstrap device_mesh st)) ;;;
   match parallelize_plan with
   | PlanStyle style => call_style style module device_mesh
   | PlanDict items =>
       for_items parallelize_module device_mesh module items ;;;
       ret module
   | PlanOther => raise InvalidPlanTypeError
   end) st.
Proof.
  unfold parallelize_module at 1.
  destruct parallelize_plan as [style|items|]; [reflexivity| |reflexivity].
  change (plan_fuel (PlanDict items))
    with (S (1 + list_max (map (fun kv => String.length (fst kv)) items))).
  rewrite parallelize_module_fuel_S.
  apply bind_ext; [reflexivity|]. intros _ st1.
  apply bind_ext; [reflexivity|]. intros _ st2.
  apply bind_ext; [|reflexivity].
  apply for_items_agree with (k := 1 + list_max (map (fun kv => String.length (fst kv)) items));
    [|lia].
  intros m mesh' p st' Hp. now apply parallelize_module_enough_fuel.
Qed.

(** ** Facts about the collaborators *)

Lemma heap_rng_bootstrap mesh st : heap (rng_bootstrap mesh st) = heap st.
Proof.
  unfold rng_bootstrap.
  now destruct (is_rng_supported_mesh mesh && negb (isinstance_tp (_rng_tracker st))).
Qed.

Lemma rng_bootstrap_installed mesh st :
  isinstance_tp (_rng_tracker st) = true -> rng_bootstrap mesh st = st.
Proof.
  intros H. unfold rng_bootstrap. rewrite H.
  now rewrite andb_false_r.
Qed.

Lemma rng_bootstrap_idem mesh st :
  rng_bootstrap mesh (rng_bootstrap mesh st) = rng_bootstrap mesh st.
Proof.
  destruct (is_rng_supported_mesh mesh && negb (isinstance_tp (_rng_tracker st))) eqn:Hc.
  - apply rng_bootstrap_installed. unfold rng_bootstrap. now rewrite Hc.
  - assert (Hst : rng_bootstrap mesh st = st) by (unfold rng_bootstrap; now rewrite Hc).
    now rewrite !Hst.
Qed.

Lemma validate_1d mesh st :
  ndim mesh = 1 -> _validate_tp_mesh_dim mesh st = (Return tt, st).
Proof. intros H. unfold _validate_tp_mesh_dim. now rewrite H. Qed.

Lemma validate_not_1d mesh st :
  ndim mesh <> 1 -> _validate_tp_mesh_dim mesh st = (Raise InvalidTopologyError, st).
Proof.
  intros H. unfold _validate_tp_mesh_dim.
  destruct (Nat.eqb (ndim mesh) 1) eqn:Hn; [|reflexivity].
  apply Nat.eqb_eq in Hn. contradiction.
Qed.

Lemma lookup_assign_child name child cs :
  lookup_child name (assign_child name child cs) = Some child.
Proof.
  induction cs as [|[n c] cs IH]; simpl.
  - now rewrite String.eqb_refl.
  - destruct (String.eqb n name) eqn:Hn; simpl; now rewrite Hn.
Qed.

Lemma lookup_assign_child_ne name name' child cs :
  name' <> name ->
  lookup_child name' (assign_child name child cs) = lookup_child name' cs.
Proof.
  intros Hne. induction cs as [|[n c] cs IH]; simpl.
  - destruct (String.eqb name name') eqn:Hn; [|reflexivity].
    apply String.eqb_eq in Hn. congruence.
  - destruct (String.eqb n name) eqn:Hn; simpl.
    + apply String.eqb_eq in Hn. subst n.
      destruct (String.eqb name name') eqn:Hn'; [|reflexivity].
      apply String.eqb_eq in Hn'. congruence.
    + now rewrite IH.
Qed.

(** Replacing an existing child adds and renames nothing. *)
Lemma assign_child_names name child cs old :
  lookup_child name cs = Some old ->
  map fst (assign_child name child cs) = map fst cs.
Proof.
  induction cs as [|[n c] cs IH]; simpl; [discriminate|].
  destruct (String.eqb n name); simpl; [reflexivity|].
  intros H. now rewrite IH.
Qed.

Lemma register_module_other parent name child h l :
  l <> parent -> register_module parent name child h !! l = h !! l.
Proof.
  intros Hne. unfold register_module.
  destruct (h !! parent); [|reflexivity].
  now rewrite lookup_insert_ne.
Qed.

Lemma register_module_parent parent name child h md :
  h !! parent = Some md ->
  register_module parent name child h !! parent =
  Some (mkModule (assign_child name child (_modules md)) (contents md)).
Proof.
  intros H. unfold register_module. rewrite H. apply lookup_insert_eq.
Qed.

(** A call with a style plan on a 1-D mesh is the style's [_apply]. *)
Lemma parallelize_module_fuel_style fuel module mesh style st :
  ndim mesh = 1 ->
  parallelize_module_fuel (S fuel) module mesh (PlanStyle style) st =
  call_style style module mesh (rng_bootstrap mesh st).
Proof.
  intros H. rewrite parallelize_module_fuel_S. unfold bind.
  now rewrite validate_1d.
Qed.

(** The emptiness test of line 93 never fires: [split] always yields at
    least one segment. *)
Lemma plan_item_after_check rec mesh style module module_path st :
  plan_item rec mesh style module module_path st =
  (r <- while_path_splits rec mesh style (split_dot module_path) module module "" ;;
   let '(parent_module, leaf_module, atom) := r in
   match leaf_module with
   | None => ret tt
   | Some leaf_module =>
       if Nat.eqb (String.length atom) 0 then raise AssertionError
       else
         new <- rec leaf_module mesh (PlanStyle style) ;;
         do_register parent_module atom new
   end) st.
Proof.
  unfold plan_item.
  destruct (split_dot module_path) eqn:Hs; [|reflexivity].
  exfalso. now apply (split_dot_not_nil module_path).
Qed.

Section LiteralSteps.
Variable rec : nat -> DeviceMesh -> Plan -> M nat.
Variable mesh : DeviceMesh.
Variable style : ParallelStyle.

Lemma while_literal_found a rest parent_module leaf_module atom sub st :
  String.eqb a "*" = false ->
  get_submodule (heap st) leaf_module a = Some sub ->
  while_path_splits rec mesh style (a :: rest) parent_module leaf_module atom st =
  while_path_splits rec mesh style rest leaf_module sub a st.
Proof. intros Ha Hs. simpl. now rewrite Ha, Hs. Qed.

Lemma while_literal_missing a rest parent_module leaf_module atom st :
  String.eqb a "*" = false ->
  get_submodule (heap st) leaf_module a = None ->
  while_path_splits rec mesh style (a :: rest) parent_module leaf_module atom st =
  (Return (leaf_module, None, a), st).
Proof. intros Ha Hs. simpl. now rewrite Ha, Hs. Qed.
(** At a wildcard the loop over the children runs on [parent_module], and
    the while loop then goes on with the same [parent_module] and
    [leaf_module]. *)
Lemma while_wildcard rest parent_module leaf_module atom st :
  while_path_splits rec mesh style ("*" :: rest) parent_module leaf_module atom st =
  ((fun st => for_children rec mesh style (join_dot rest)
                (children (heap st) parent_module) st) ;;;
   while_path_splits rec mesh style rest parent_module leaf_module "*") st.
Proof. reflexivity. Qed.
End LiteralSteps.

(** ** The RNG tracker across calls *)

Lemma rng_bootstrap_tp mesh st :
  is_rng_supported_mesh mesh = true ->
  isinstance_tp (_rng_tracker (rng_bootstrap mesh st)) = true.
Proof.
  intros Hs. unfold rng_bootstrap. rewrite Hs. simpl.
  destruct (isinstance_tp (_rng_tracker st)) eqn:Ht; simpl; [exact Ht | reflexivity].
Qed.

(** A tracker of the tensor-parallel class is never replaced or reseeded. *)
Lemma installed_tracker_is_kept module mesh plan st :
  isinstance_tp (_rng_tracker st) = true ->
  _rng_tracker (snd (parallelize_module module mesh plan st)) = _rng_tracker st /\
  next_tracker_id (snd (parallelize_module module mesh plan st)) = next_tracker_id st.
Proof.
  intros Htp.
  set (P := fun st' : State =>
              _rng_tracker st' = _rng_tracker st /\
              next_tracker_id st' = next_tracker_id st).
  assert (HP : P st) by (split; reflexivity).
  refine (proj1 (post_parallelize_module P (fun _ => True) _ _ I I I
                   module mesh plan st HP)).
  - intros st' h Hst'. exact Hst'.
  - intros mesh' st' [Ht Hn]. rewrite rng_bootstrap_installed; [now split|].
    now rewrite Ht.
Qed.

(** After a call on a 1-D mesh that supports RNG coordination the tracker
    is of the tensor-parallel class, whatever it was before. *)
Lemma tracker_installed_after_call module mesh plan st :
  ndim mesh = 1 ->
  is_rng_supported_mesh mesh = true ->
  isinstance_tp (_rng_tracker (snd (parallelize_module module mesh plan st))) = true.
Proof.
  intros Hdim Hs. rewrite parallelize_module_unfold. unfold bind at 1.
  rewrite validate_1d by exact Hdim. unfold bind at 1. unfold ret at 1.
  set (P := fun st' : State => isinstance_tp (_rng_tracker st') = true).
  assert (P_heap : forall st' h, P st' ->
            P (mkState h (_rng_tracker st') (next_tracker_id st')))
    by (intros st' h Hst'; exact Hst').
  assert (P_rng : forall mesh' st', P st' -> P (rng_bootstrap mesh' st'))
    by (intros mesh' st' Hst'; now rewrite rng_bootstrap_installed).
  assert (Hrest : post P (fun _ => True)
            match plan with
            | PlanStyle style => call_style style module mesh
            | PlanDict items =>
                for_items parallelize_module mesh module items ;;; ret module
            | PlanOther => raise InvalidPlanTypeError
            end).
  { destruct plan as [style|items|].
    - now apply post_call_style.
    - apply post_bind; [|intros _; apply post_ret].
      apply post_for_items
        with (k := 1 + list_max (map (fun kv => String.length (fst kv)) items));
        auto.
      intros m mesh' p _. now apply post_parallelize_module.
    - now apply post_raise. }
  apply (Hrest (rng_bootstrap mesh st)). now apply rng_bootstrap_tp.
Qed.

(** Two calls in a row with the same mesh: the second one finds the tracker
    the first one left and keeps it. *)
Lemma second_call_keeps_tracker module1 plan1 module2 plan2 mesh st :
  ndim mesh = 1 ->
  is_rng_supported_mesh mesh = true ->
  let st1 := snd (parallelize_module module1 mesh plan1 st) in
  let st2 := snd (parallelize_module module2 mesh plan2 st1) in
  _rng_tracker st2 = _rng_tracker st1 /\ next_tracker_id st2 = next_tracker_id st1.
Proof.
  intros Hdim Hs st1 st2. apply installed_tracker_is_kept.
  now apply tracker_installed_after_call.
Qed.

(** ** Properties of the entry point *)

(** C7: on a 1-D mesh, a plan that is a single style returns the result of
    the style's [_apply] on the root module, and the store it leaves is the
    one [_apply] produced: nothing is resolved or walked. *)
Theorem single_style_plan_is_apply module mesh style st :
  ndim mesh = 1 ->
  parallelize_module module mesh (PlanStyle style) st =
  (Return (snd (_apply style module mesh (heap st))),
   mkState (fst (_apply style module mesh (heap st)))
     (_rng_tracker (rng_bootstrap mesh st))
     (next_tracker_id (rng_bootstrap mesh st))).
Proof.
  intros Hdim. unfold parallelize_module. simpl plan_fuel.
  rewrite parallelize_module_fuel_style by exact Hdim.
  unfold call_style. rewrite heap_rng_bootstrap.
  now destruct (_apply style module mesh (heap st)).
Qed.

Lemma single_style_plan_is_apply_witness :
  ndim mesh1 = 1 /\
  parallelize_module 0 mesh1 (PlanStyle WrapStyle) (state_of tree_flat) =
  (Return (snd (_apply WrapStyle 0 mesh1 (heap (state_of tree_flat)))),
   mkState (fst (_apply WrapStyle 0 mesh1 (heap (state_of tree_flat))))
     (_rng_tracker (rng_bootstrap mesh1 (state_of tree_flat)))
     (next_tracker_id (rng_bootstrap mesh1 (state_of tree_flat)))).
Proof.
  split; [reflexivity|].
  apply (single_style_plan_is_apply 0 mesh1 WrapStyle (state_of tree_flat)).
  reflexivity.
Defined.

(** C9: a mesh whose dimensionality is not 1 makes the call raise
    InvalidTopologyError with the state untouched: no module read or
    written, no tracker installed, no style applied. *)
Theorem non_1d_mesh_rejected module mesh plan st :
  ndim mesh <> 1 ->
  parallelize_module module mesh plan st = (Raise InvalidTopologyError, st).
Proof.
  intros Hdim. rewrite parallelize_module_unfold. unfold bind.
  now rewrite validate_not_1d.
Qed.

Lemma non_1d_mesh_rejected_witness :
  ndim mesh2 <> 1 /\
  parallelize_module 0 mesh2 (PlanDict [("a.*", InPlaceStyle)]) (state_of tree_fanout) =
  (Raise InvalidTopologyError, state_of tree_fanout).
Proof.
  split; [simpl; lia|].
  apply (non_1d_mesh_rejected 0 mesh2 (PlanDict [("a.*", InPlaceStyle)])
           (state_of tree_fanout)).
  simpl. lia.
Defined.

(** C10: on a 1-D mesh, an empty dict plan returns the same root object and
    leaves the store of modules as it was; only the RNG bootstrap may have
    run. *)
Theorem empty_dict_plan_returns_root module mesh st :
  ndim mesh = 1 ->
  parallelize_module module mesh (PlanDict []) st =
  (Return module, rng_bootstrap mesh st) /\
  heap (rng_bootstrap mesh st) = heap st.
Proof.
  intros Hdim. split; [|apply heap_rng_bootstrap].
  rewrite parallelize_module_unfold. unfold bind.
  now rewrite validate_1d.
Qed.

Lemma empty_dict_plan_returns_root_witness :
  ndim mesh1 = 1 /\
  parallelize_module 0 mesh1 (PlanDict []) (state_of tree_chain) =
  (Return 0, rng_bootstrap mesh1 (state_of tree_chain)) /\
  heap (rng_bootstrap mesh1 (state_of tree_chain)) = heap (state_of tree_chain).
Proof.
  split; [reflexivity|].
  apply (empty_dict_plan_returns_root 0 mesh1 (state_of tree_chain)).
  reflexivity.
Defined.

(** C8: when the mesh supports RNG coordination and the global tracker is
    already a TensorParallelRNGTracker, a call leaves the tracker object
    (identity, seed, distribute_region_enabled) and the tracker allocator
    as they were, whatever the plan and however the call ends. *)
Theorem rng_bootstrap_not_repeated module mesh plan st :
  is_rng_supported_mesh mesh = true ->
  isinstance_tp (_rng_tracker st) = true ->
  _rng_tracker (snd (parallelize_module module mesh plan st)) = _rng_tracker st /\
  next_tracker_id (snd (parallelize_module module mesh plan st)) = next_tracker_id st.
Proof. intros _ Htp. now apply installed_tracker_is_kept. Qed.

Lemma rng_bootstrap_not_repeated_witness :
  let st := mkState tree_fanout (Some tracker1) 1 in
  is_rng_supported_mesh mesh1 = true /\
  isinstance_tp (_rng_tracker st) = true /\
  _rng_tracker
    (snd (parallelize_module 0 mesh1 (PlanDict [("a.*", InPlaceStyle)]) st)) =
  _rng_tracker st /\
  next_tracker_id
    (snd (parallelize_module 0 mesh1 (PlanDict [("a.*", InPlaceStyle)]) st)) =
  next_tracker_id st.
Proof.
  intros st. split; [reflexivity|]. split; [reflexivity|].
  apply (rng_bootstrap_not_repeated 0 mesh1 (PlanDict [("a.*", InPlaceStyle)]) st);
    reflexivity.
Defined.

(** C5: in a tree where root has a child a, a has a child b and b has no
    child c, the plan {"a.b.c": T} on a 1-D mesh returns the root, raises
    nothing and leaves the store of modules as it was. *)
Theorem missing_literal_is_silent root la lb mesh style st :
  ndim mesh = 1 ->
  get_submodule (heap st) root "a" = Some la ->
  get_submodule (heap st) la "b" = Some lb ->
  get_submodule (heap st) lb "c" = None ->
  parallelize_module root mesh (PlanDict [("a.b.c", style)]) st =
  (Return root, rng_bootstrap mesh st) /\
  heap (rng_bootstrap mesh st) = heap st.
Proof.
  intros Hdim Ha Hb Hc. split; [|apply heap_rng_bootstrap].
  rewrite parallelize_module_unfold. unfold bind at 1.
  rewrite validate_1d by exact Hdim.
  unfold bind at 1. unfold ret at 1.
  rewrite <- (heap_rng_bootstrap mesh st) in Ha, Hb, Hc.
  unfold for_items, bind at 1 2. rewrite plan_item_after_check.
  change (split_dot "a.b.c") with ["a"; "b"; "c"].
  unfold bind.
  rewrite (while_literal_found _ _ _ "a" _ _ _ _ la) by (reflexivity || exact Ha).
  rewrite (while_literal_found _ _ _ "b" _ _ _ _ lb) by (reflexivity || exact Hb).
  rewrite while_literal_missing by (reflexivity || exact Hc).
  reflexivity.
Qed.

Lemma missing_literal_is_silent_witness :
  ndim mesh1 = 1 /\
  get_submodule (heap (state_of tree_short)) 0 "a" = Some 1 /\
  get_submodule (heap (state_of tree_short)) 1 "b" = Some 2 /\
  get_submodule (heap (state_of tree_short)) 2 "c" = None /\
  parallelize_module 0 mesh1 (PlanDict [("a.b.c", InPlaceStyle)]) (state_of tree_short) =
  (Return 0, rng_bootstrap mesh1 (state_of tree_short)) /\
  heap (rng_bootstrap mesh1 (state_of tree_short)) = heap (state_of tree_short).
Proof.
  repeat (split; [reflexivity|]).
  apply (missing_literal_is_silent 0 1 2 mesh1 InPlaceStyle (state_of tree_short));
    reflexivity.
Defined.

(** C3: in a tree where the path a.b.c leads from the root to a module X,
    the plan {"a.b.c": T} on a 1-D mesh returns the root after applying T
    to X once and storing the result under the name c in b: the store
    differs from the one T left only at b, whose child c is now T's
    result, with no child name of b added or changed. *)
Theorem literal_path_replaces_target root la lb lx mesh style st :
  ndim mesh = 1 ->
  get_submodule (heap st) root "a" = Some la ->
  get_submodule (heap st) la "b" = Some lb ->
  get_submodule (heap st) lb "c" = Some lx ->
  let h' := fst (_apply style lx mesh (heap st)) in
  let new := snd (_apply style lx mesh (heap st)) in
  let final := register_module lb "c" new h' in
  parallelize_module root mesh (PlanDict [("a.b.c", style)]) st =
  (Return root,
   mkState final (_rng_tracker (rng_bootstrap mesh st))
     (next_tracker_id (rng_bootstrap mesh st))) /\
  (forall l, l <> lb -> final !! l = h' !! l) /\
  (forall mb, h' !! lb = Some mb ->
     final !! lb = Some (mkModule (assign_child "c" new (_modules mb)) (contents mb)) /\
     get_submodule final lb "c" = Some new /\
     (forall old, lookup_child "c" (_modules mb) = Some old ->
        map fst (assign_child "c" new (_modules mb)) = map fst (_modules mb)) /\
     (forall name, name <> "c" ->
        get_submodule final lb name = lookup_child name (_modules mb))).
Proof.
  intros Hdim Ha Hb Hc h' new final. split; [|split].
  - rewrite parallelize_module_unfold. unfold bind at 1.
    rewrite validate_1d by exact Hdim.
    unfold bind at 1. unfold ret at 1.
    rewrite <- (heap_rng_bootstrap mesh st) in Ha, Hb, Hc.
    unfold for_items, bind at 1 2. rewrite plan_item_after_check.
    change (split_dot "a.b.c") with ["a"; "b"; "c"].
    unfold bind.
    rewrite (while_literal_found _ _ _ "a" _ _ _ _ la) by (reflexivity || exact Ha).
    rewrite (while_literal_found _ _ _ "b" _ _ _ _ lb) by (reflexivity || exact Hb).
    rewrite (while_literal_found _ _ _ "c" _ _ _ _ lx) by (reflexivity || exact Hc).
    cbn [while_path_splits ret String.length Nat.eqb].
    unfold parallelize_module. cbn [plan_fuel].
    rewrite parallelize_module_fuel_style by exact Hdim.
    rewrite rng_bootstrap_idem.
    unfold call_style. rewrite heap_rng_bootstrap.
    subst final h' new.
    destruct (_apply style lx mesh (heap st)) as [h1 r1]. reflexivity.
  - intros l Hl. now apply register_module_other.
  - intros mb Hmb.
    assert (Hfinal : final !! lb =
              Some (mkModule (assign_child "c" new (_modules mb)) (contents mb)))
      by now apply register_module_parent.
    split; [exact Hfinal|]. split; [|split].
    + unfold get_submodule. rewrite Hfinal. apply lookup_assign_child.
    + intros old Hold. now apply assign_child_names with (old := old).
    + intros name Hname. unfold get_submodule. rewrite Hfinal.
      now apply lookup_assign_child_ne.
Qed.

Lemma literal_path_replaces_target_witness :
  ndim mesh1 = 1 /\
  get_submodule (heap (state_of tree_chain)) 0 "a" = Some 1 /\
  get_submodule (heap (state_of tree_chain)) 1 "b" = Some 2 /\
  get_submodule (heap (state_of tree_chain)) 2 "c" = Some 3 /\
  parallelize_module 0 mesh1 (PlanDict [("a.b.c", WrapStyle)]) (state_of tree_chain) =
  (Return 0,
   mkState
     (list_to_map
        [(0, mkModule [("a", 1)] 0);
         (1, mkModule [("b", 2)] 0);
         (2, mkModule [("c", 4)] 0);
         (3, leaf 0);
         (4, mkModule [("inner", 3)] 0)])
     (Some tracker1) 1).
Proof.
  repeat (split; [reflexivity|]).
  exact (proj1 (literal_path_replaces_target 0 1 2 3 mesh1 WrapStyle
                  (state_of tree_chain) eq_refl eq_refl eq_refl eq_refl)).
Defined.

(** C1: on root{a{k1: X1, k2: X2}} the plan {"a.*": T} does not transform
    X1 and X2.  The loop over the children runs on the parent of [a],
    whose only child is [a], so T is applied to [a], its result dropped;
    after the loop T is applied to [a] again and the result is stored in
    the root under the new name "*".  Shown for a style that works in
    place and for one that returns a new object. *)
Theorem wildcard_after_prefix_fans_out_over_siblings :
  parallelize_module 0 mesh1 (PlanDict [("a.*", InPlaceStyle)]) (state_of tree_fanout) =
  (Return 0,
   mkState
     (list_to_map
        [(0, mkModule [("a", 1); ("*", 1)] 0);
         (1, mkModule [("k1", 2); ("k2", 3)] 2);
         (2, leaf 0);
         (3, leaf 0)])
     (Some tracker1) 1) /\
  parallelize_module 0 mesh1 (PlanDict [("a.*", WrapStyle)]) (state_of tree_fanout) =
  (Return 0,
   mkState
     (list_to_map
        [(0, mkModule [("a", 1); ("*", 5)] 0);
         (1, mkModule [("k1", 2); ("k2", 3)] 0);
         (2, leaf 0);
         (3, leaf 0);
         (4, mkModule [("inner", 1)] 0);
         (5, mkModule [("inner", 1)] 0)])
     (Some tracker1) 1).
Proof. split; vm_compute; reflexivity. Qed.

(** C2: on root{p{m{lin: X}, n{}}} the plan {"p.*.lin": T} transforms
    nothing: the wildcard is expanded over the children of the root (only
    [p], which has no child lin) and the rest of the path is then looked up
    in [p] itself, where it is missing.  The call returns the root with the
    store of modules as it was. *)
Theorem wildcard_with_continuation_misses_grandchildren :
  parallelize_module 0 mesh1 (PlanDict [("p.*.lin", InPlaceStyle)])
    (state_of tree_irregular) =
  (Return 0, mkState tree_irregular (Some tracker1) 1) /\
  parallelize_module 0 mesh1 (PlanDict [("p.*.lin", WrapStyle)])
    (state_of tree_irregular) =
  (Return 0, mkState tree_irregular (Some tracker1) 1).
Proof. split; vm_compute; reflexivity. Qed.

(** A wildcard in first position does reach the grandchildren: on the
    subtree p{m{lin: X}, n{}} the plan {"*.lin": T} transforms X (object 4)
    and skips n. *)
Example leading_wildcard_reaches_grandchildren :
  parallelize_module 1 mesh1 (PlanDict [("*.lin", InPlaceStyle)])
    (state_of tree_irregular) =
  (Return 1,
   mkState
     (list_to_map
        [(0, mkModule [("p", 1)] 0);
         (1, mkModule [("m", 2); ("n", 3)] 0);
         (2, mkModule [("lin", 4)] 0);
         (3, leaf 0);
         (4, leaf 1)])
     (Some tracker1) 1).
Proof. vm_compute. reflexivity. Qed.

(** C6: on root{k1: X1, k2: X2} the plan {"*": T} applies T to X1 and X2
    in the loop over the children, and then goes on: T is applied to the
    root itself and the result is stored in the root under the new name
    "*".  With a style that returns new objects, the results for X1 and X2
    (objects 3 and 4) are dropped and k1, k2 still name X1, X2. *)
Theorem trailing_wildcard_falls_through_to_register :
  parallelize_module 0 mesh1 (PlanDict [("*", InPlaceStyle)]) (state_of tree_flat) =
  (Return 0,
   mkState
     (list_to_map
        [(0, mkModule [("k1", 1); ("k2", 2); ("*", 0)] 1);
         (1, leaf 1);
         (2, leaf 1)])
     (Some tracker1) 1) /\
  parallelize_module 0 mesh1 (PlanDict [("*", WrapStyle)]) (state_of tree_flat) =
  (Return 0,
   mkState
     (list_to_map
        [(0, mkModule [("k1", 1); ("k2", 2); ("*", 5)] 0);
         (1, leaf 0);
         (2, leaf 0);
         (3, mkModule [("inner", 1)] 0);
         (4, mkModule [("inner", 2)] 0);
         (5, mkModule [("inner", 0)] 0)])
     (Some tracker1) 1).
Proof. split; vm_compute; reflexivity. Qed.

(** C4: no call ever raises InvalidPlanKeyError, because splitting a path
    never yields an empty list; the plan {"": T} on root{a{b: X}} returns
    the root with the store of modules as it was. *)
Theorem empty_key_is_not_rejected :
  (forall module mesh plan st,
     fst (parallelize_module module mesh plan st) <> Raise InvalidPlanKeyError) /\
  parallelize_module 0 mesh1 (PlanDict [("", InPlaceStyle)]) (state_of tree_short) =
  (Return 0, mkState tree_short (Some tracker1) 1).
Proof.
  split; [|vm_compute; reflexivity].
  intros module mesh plan st Hraise.
  refine (proj2 (proj2 (post_parallelize_module (fun _ => True)
            (fun e => e <> InvalidPlanKeyError) _ _ _ _ _ module mesh plan st I))
            InvalidPlanKeyError Hraise eq_refl); auto; discriminate.
Qed.

(** ** Further properties: paths *)

Lemma dot_free_split_single (a : string) :
  dot_free a = true -> split_dot a = [a].
Proof.
  induction a as [|c a IH]; simpl; [reflexivity|].
  destruct (Ascii.eqb c "."); simpl; [discriminate|].
  intros Ha. now rewrite IH.
Qed.

Lemma dot_free_split_app (a s : string) :
  dot_free a = true ->
  split_dot (a ++ String "."%char s)%string = a :: split_dot s.
Proof.
  induction a as [|c a IH]; simpl; [reflexivity|].
  destruct (Ascii.eqb c "."); simpl; [discriminate|].
  intros Ha. now rewrite IH.
Qed.

Lemma split_dot_dot_free (s : string) :
  Forall (fun seg => dot_free seg = true) (split_dot s).
Proof.
  induction s as [|c s IH]; simpl.
  - now constructor.
  - destruct (Ascii.eqb c ".") eqn:Hc.
    + now constructor.
    + destruct (split_dot s) as [|x xs]; [repeat constructor; simpl; now rewrite Hc|].
      inversion IH as [|? ? Hx Hxs]; subst.
      constructor; [|exact Hxs]. simpl. now rewrite Hc.
Qed.

(** Lines 92 and 102: joining the segments of a path gives the path back. *)
Theorem join_of_split_is_path (module_path : string) :
  join_dot (split_dot module_path) = module_path /\
  Forall (fun seg => dot_free seg = true) (split_dot module_path).
Proof. split; [apply join_split | apply split_dot_dot_free]. Qed.

Lemma split_join (path_splits : list string) :
  path_splits <> [] ->
  Forall (fun seg => dot_free seg = true) path_splits ->
  split_dot (join_dot path_splits) = path_splits.
Proof.
  induction path_splits as [|a rest IH]; [congruence|].
  intros _ Hall. inversion Hall as [|? ? Ha Hrest]; subst.
  destruct rest as [|b rest].
  - simpl. now apply dot_free_split_single.
  - rewrite join_dot_cons by discriminate.
    change ("." ++ join_dot (b :: rest))%string
      with (String "."%char (join_dot (b :: rest))).
    rewrite dot_free_split_app by exact Ha.
    rewrite IH; [reflexivity | discriminate | exact Hrest].
Qed.

(** Lines 102, 107 and 92: the key of the sub-plan built from the rest of
    the segments splits, in the recursive call, into these segments
    again. *)
Theorem split_of_join_is_segments (path_splits : list string) :
  path_splits <> [] ->
  Forall (fun seg => dot_free seg = true) path_splits ->
  split_dot (join_dot path_splits) = path_splits.
Proof. apply split_join. Qed.

Lemma split_of_join_is_segments_witness :
  ["lin"; "*"; "w"] <> [] /\
  Forall (fun seg => dot_free seg = true) ["lin"; "*"; "w"] /\
  split_dot (join_dot ["lin"; "*"; "w"]) = ["lin"; "*"; "w"].
Proof.
  split; [discriminate|]. split; [repeat constructor|].
  apply (split_of_join_is_segments ["lin"; "*"; "w"]);
    [discriminate | repeat constructor].
Defined.

Lemma last_cons_default {A} (a d : A) (l : list A) :
  List.last (a :: l) d = List.last l a.
Proof.
  revert a d. induction l as [|b l IH]; intros a d; [reflexivity|].
  change (List.last (a :: b :: l) d) with (List.last (b :: l) d).
  now rewrite (IH b d), (IH b a).
Qed.

(** The atom the while loop ends with, when it ends on a module, is the
    last segment. *)
Lemma while_final_atom rec mesh style segs :
  forall parent_module leaf_module atom st p l a st',
    while_path_splits rec mesh style segs parent_module leaf_module atom st =
    (Return (p, Some l, a), st') ->
    a = List.last segs atom.
Proof.
  induction segs as [|a0 rest IH]; intros parent_module leaf_module atom st p l a st' H.
  - simpl in H. unfold ret in H. now injection H as _ _ <- _.
  - rewrite last_cons_default. simpl in H. destruct (String.eqb a0 "*").
    + unfold bind at 1 in H.
      destruct (for_children rec mesh style (join_dot rest)
                  (children (heap st) parent_module) st) as [[[]| |] st1];
        [|discriminate|discriminate].
      eapply IH. exact H.
    + destruct (get_submodule (heap st) leaf_module a0).
      * eapply IH. exact H.
      * unfold ret in H. discriminate.
Qed.

(** The rule for [bind] at one state, with the run of the first part at
    hand in the second. *)
Lemma post_bind_run {A B} (P : State -> Prop) (E : Exn -> Prop)
  (m : M A) (k : A -> M B) st :
  (P (snd (m st)) /\ fst (m st) <> OutOfFuel /\
   (forall e, fst (m st) = Raise e -> E e)) ->
  (forall a st', m st = (Return a, st') -> P st' ->
     P (snd (k a st')) /\ fst (k a st') <> OutOfFuel /\
     (forall e, fst (k a st') = Raise e -> E e)) ->
  P (snd (bind m k st)) /\ fst (bind m k st) <> OutOfFuel /\
  (forall e, fst (bind m k st) = Raise e -> E e).
Proof.
  intros Hm Hk. unfold bind.
  destruct (m st) as [[a|e|] st'] eqn:Hrun; simpl in *.
  - apply Hk; [reflexivity | tauto].
  - destruct Hm as (HP & _ & HE). repeat split; [exact HP | discriminate |].
    intros e' [= <-]. now apply HE.
  - destruct Hm as (_ & Hfuel & _). now destruct Hfuel.
Qed.

(** ** Rules for one mesh and a class of keys

    The recursive calls pass the same mesh on, and the keys of their
    sub-plans are joins of tails of the segments of the key at hand. *)

Section HoareKeys.
Variable mesh : DeviceMesh.
Variable P : State -> Prop.
Variable E : Exn -> Prop.
Variable K : string -> Prop.
Variable Kseg : list string -> Prop.
Hypothesis P_heap : forall st h,
  P st -> P (mkState h (_rng_tracker st) (next_tracker_id st)).
Hypothesis P_rng : forall st, P st -> P (rng_bootstrap mesh st).
Hypothesis E_topology : ndim mesh <> 1 -> E InvalidTopologyError.
Hypothesis K_split : forall path, K path -> Kseg (split_dot path).
Hypothesis Kseg_tail : forall a rest, Kseg (a :: rest) -> Kseg rest.
Hypothesis Kseg_join : forall rest,
  Kseg rest -> join_dot rest <> "" -> K (join_dot rest).
Hypothesis E_assert : forall segs,
  Kseg segs -> segs <> [] -> List.last segs "" = "" -> E AssertionError.

Lemma keys_post_validate : post P E (_validate_tp_mesh_dim mesh).
Proof.
  unfold _validate_tp_mesh_dim.
  destruct (Nat.eqb (ndim mesh) 1) eqn:Hn; [apply post_ret|].
  apply post_raise. apply E_topology. intros H. rewrite H in Hn. discriminate.
Qed.

Section KeysLoops.
Variable k : nat.
Variable rec : nat -> DeviceMesh -> Plan -> M nat.
Hypothesis rec_post : forall m p,
  plan_ok K E p -> plan_fuel p <= k -> post P E (rec m mesh p).
Variable style : ParallelStyle.

Lemma keys_post_for_children leaf_path subs :
  1 <= k ->
  (leaf_path <> "" -> 2 + String.length leaf_path <= k /\ K leaf_path) ->
  post P E (for_children rec mesh style leaf_path subs).
Proof.
  intros H1 H2. induction subs as [|sub subs IH]; simpl.
  - apply post_ret.
  - apply post_bind; [|intros _; exact IH].
    destruct (String.eqb leaf_path "") eqn:Hl; simpl.
    + apply rec_post; [exact I | exact H1].
    + apply String.eqb_neq in Hl. destruct (H2 Hl) as [Hlen HK].
      apply rec_post; simpl; [|lia].
      constructor; [exact HK | constructor].
Qed.

Lemma keys_post_while_path_splits segs parent_module leaf_module atom :
  Kseg segs ->
  1 + String.length (join_dot segs) <= k ->
  post P E (while_path_splits rec mesh style segs parent_module leaf_module atom).
Proof.
  revert parent_module leaf_module atom.
  induction segs as [|a rest IH]; intros parent_module leaf_module atom HK Hk; simpl.
  - apply post_ret.
  - pose proof (join_tail_le a rest) as Hle.
    pose proof (Kseg_tail a rest HK) as HKrest.
    destruct (String.eqb a "*").
    + apply post_bind; [|intros _; apply IH; [exact HKrest | lia]].
      intros st HP. apply keys_post_for_children; [lia | | exact HP].
      intros Hne. pose proof (join_tail_lt a rest Hne).
      split; [lia | now apply Kseg_join].
    + intros st HP.
      destruct (get_submodule (heap st) leaf_module a).
      * apply IH; [exact HKrest | lia | exact HP].
      * now apply post_ret.
Qed.

Lemma keys_post_plan_item module module_path :
  K module_path ->
  1 + String.length module_path <= k ->
  post P E (plan_item rec mesh style module module_path).
Proof.
  intros HK Hk st HP. rewrite plan_item_after_check.
  pose proof (keys_post_while_path_splits (split_dot module_path) module module ""
                (K_split _ HK)) as Hw.
  rewrite join_split in Hw. specialize (Hw Hk st HP).
  apply post_bind_run; [exact Hw|].
  intros [[parent_module [leaf_module|]] atom] st' Hrun HP'; [|now apply post_ret].
  apply while_final_atom in Hrun.
  destruct (Nat.eqb (String.length atom) 0) eqn:Hlen.
  - apply post_raise; [|exact HP'].
    apply (E_assert (split_dot module_path));
      [now apply K_split | apply split_dot_not_nil |].
    rewrite <- Hrun. destruct atom; [reflexivity | discriminate].
  - apply post_bind; [| intros new; now apply post_do_register | exact HP'].
    apply rec_post; [exact I | simpl; lia].
Qed.
End KeysLoops.

Lemma keys_post_for_items k rec module items :
  (forall m p, plan_ok K E p -> plan_fuel p <= k -> post P E (rec m mesh p)) ->
  Forall (fun kv => K (fst kv)) items ->
  1 + list_max (map (fun kv => String.length (fst kv)) items) <= k ->
  post P E (for_items rec mesh module items).
Proof.
  intros Hrec. induction items as [|[module_path style] items IH]; simpl; intros HK Hk.
  - apply post_ret.
  - inversion HK as [|? ? HK1 HK2]; subst. apply post_bind.
    + apply keys_post_plan_item with (k := k); [exact Hrec | exact HK1 | lia].
    + intros _. apply IH; [exact HK2 | lia].
Qed.

Lemma keys_post_parallelize_module_fuel fuel :
  forall module plan,
    plan_ok K E plan ->
    plan_fuel plan <= fuel ->
    post P E (parallelize_module_fuel fuel module mesh plan).
Proof.
  induction fuel as [|fuel IH]; intros module plan Hok Hfuel.
  { destruct plan; simpl in Hfuel; lia. }
  rewrite parallelize_module_fuel_S.
  apply post_bind; [apply keys_post_validate|]. intros _.
  apply post_bind.
  { intros st HP. simpl. repeat split; [now apply P_rng | discriminate | discriminate]. }
  intros _. destruct plan as [style|items|].
  - now apply post_call_style.
  - apply post_bind; [|intros _; apply post_ret].
    apply keys_post_for_items with (k := fuel); [exact IH | exact Hok |].
    simpl in Hfuel. lia.
  - apply post_raise. exact Hok.
Qed.

Lemma keys_post_parallelize_module module plan :
  plan_ok K E plan -> post P E (parallelize_module module mesh plan).
Proof. intros Hok. apply keys_post_parallelize_module_fuel; [exact Hok | lia]. Qed.
End HoareKeys.

(** ** Further properties: the RNG tracker *)

Lemma rng_bootstrap_congr mesh st st' :
  _rng_tracker st' = _rng_tracker st ->
  next_tracker_id st' = next_tracker_id st ->
  _rng_tracker (rng_bootstrap mesh st') = _rng_tracker (rng_bootstrap mesh st) /\
  next_tracker_id (rng_bootstrap mesh st') = next_tracker_id (rng_bootstrap mesh st).
Proof.
  intros Ht Hn. unfold rng_bootstrap. rewrite Ht, Hn.
  destruct (is_rng_supported_mesh mesh && negb (isinstance_tp (_rng_tracker st)));
    simpl; auto.
Qed.

Lemma plan_ok_trivial (p : Plan) : plan_ok (fun _ => True) (fun _ => True) p.
Proof. destruct p; simpl; auto. apply Forall_forall. auto. Qed.

(** A call on a 1-D mesh: the bootstrap, then the branch for the plan. *)
Lemma parallelize_module_1d module mesh plan st :
  ndim mesh = 1 ->
  parallelize_module module mesh plan st =
  match plan with
  | PlanStyle style => call_style style module mesh
  | PlanDict items =>
      for_items parallelize_module mesh module items ;;; ret module
  | PlanOther => raise InvalidPlanTypeError
  end (rng_bootstrap mesh st).
Proof.
  intros Hdim. rewrite parallelize_module_unfold. unfold bind at 1.
  rewrite validate_1d by exact Hdim. reflexivity.
Qed.

(** On a 1-D mesh it makes no difference whether the bootstrap has already
    run when the call starts. *)
Lemma call_absorbs_bootstrap module mesh plan st :
  ndim mesh = 1 ->
  parallelize_module module mesh plan (rng_bootstrap mesh st) =
  parallelize_module module mesh plan st.
Proof.
  intros Hdim. rewrite !parallelize_module_1d by exact Hdim.
  now rewrite rng_bootstrap_idem.
Qed.

(** All that a call on a 1-D mesh does to the tracker is the one bootstrap
    at its start; the recursive calls find it done. *)
Lemma rng_effect_of_call module mesh plan st :
  ndim mesh = 1 ->
  _rng_tracker (snd (parallelize_module module mesh plan st)) =
  _rng_tracker (rng_bootstrap mesh st) /\
  next_tracker_id (snd (parallelize_module module mesh plan st)) =
  next_tracker_id (rng_bootstrap mesh st).
Proof.
  intros Hdim. rewrite <- (call_absorbs_bootstrap module mesh plan st Hdim).
  set (st1 := rng_bootstrap mesh st).
  set (P := fun st' : State =>
              _rng_tracker st' = _rng_tracker st1 /\
              next_tracker_id st' = next_tracker_id st1).
  assert (HP : P st1) by (split; reflexivity).
  refine (proj1 (keys_post_parallelize_module mesh P (fun _ => True)
                   (fun _ => True) (fun _ => True) _ _ _ _ _ _ _
                   module plan (plan_ok_trivial plan) st1 HP)); auto.
  intros st' [Ht Hn].
  destruct (rng_bootstrap_congr mesh st1 st' Ht Hn) as [Ht' Hn'].
  unfold P. rewrite Ht', Hn'. subst st1. now rewrite rng_bootstrap_idem.
Qed.

(** Lines 76-85: on a 1-D mesh that supports RNG coordination, a call that
    finds no tracker of the tensor-parallel class ends with a new tracker
    object of that class for the mesh's device type, seeded with 1234 for
    the mesh, with distribute_region_enabled false; this holds for every
    plan and however the call ends. *)
Theorem first_call_installs_seeded_tracker module mesh plan st :
  ndim mesh = 1 ->
  is_rng_supported_mesh mesh = true ->
  isinstance_tp (_rng_tracker st) = false ->
  _rng_tracker (snd (parallelize_module module mesh plan st)) =
  Some (mkRngTracker (next_tracker_id st) TensorParallelRNGTracker
          (device_type mesh) (Some (mesh, 1234)) false) /\
  next_tracker_id (snd (parallelize_module module mesh plan st)) =
  S (next_tracker_id st).
Proof.
  intros Hdim Hs Ht.
  destruct (rng_effect_of_call module mesh plan st Hdim) as [H1 H2].
  rewrite H1, H2. unfold rng_bootstrap. rewrite Hs, Ht. simpl. now split.
Qed.

Lemma first_call_installs_seeded_tracker_witness :
  let st := mkState tree_fanout (Some tracker_other) 8 in
  ndim mesh1 = 1 /\
  is_rng_supported_mesh mesh1 = true /\
  isinstance_tp (_rng_tracker st) = false /\
  _rng_tracker (snd (parallelize_module 0 mesh1 PlanOther st)) =
  Some (mkRngTracker (next_tracker_id st) TensorParallelRNGTracker
          (device_type mesh1) (Some (mesh1, 1234)) false) /\
  next_tracker_id (snd (parallelize_module 0 mesh1 PlanOther st)) =
  S (next_tracker_id st).
Proof.
  intros st. repeat (split; [reflexivity|]).
  apply (first_call_installs_seeded_tracker 0 mesh1 PlanOther st); reflexivity.
Defined.

(** Line 76: on a 1-D mesh for which RNG coordination is not supported, no
    call creates, replaces or reseeds the tracker, whatever it is. *)
Theorem unsupported_mesh_leaves_tracker module mesh plan st :
  ndim mesh = 1 ->
  is_rng_supported_mesh mesh = false ->
  _rng_tracker (snd (parallelize_module module mesh plan st)) = _rng_tracker st /\
  next_tracker_id (snd (parallelize_module module mesh plan st)) = next_tracker_id st.
Proof.
  intros Hdim Hs.
  destruct (rng_effect_of_call module mesh plan st Hdim) as [H1 H2].
  rewrite H1, H2. unfold rng_bootstrap. rewrite Hs. simpl. now split.
Qed.

Lemma unsupported_mesh_leaves_tracker_witness :
  let st := mkState tree_chain (Some tracker_other) 8 in
  ndim mesh_cpu = 1 /\
  is_rng_supported_mesh mesh_cpu = false /\
  _rng_tracker
    (snd (parallelize_module 0 mesh_cpu (PlanDict [("a.b.c", WrapStyle)]) st)) =
  _rng_tracker st /\
  next_tracker_id
    (snd (parallelize_module 0 mesh_cpu (PlanDict [("a.b.c", WrapStyle)]) st)) =
  next_tracker_id st.
Proof.
  intros st. repeat (split; [reflexivity|]).
  apply (unsupported_mesh_leaves_tracker 0 mesh_cpu
           (PlanDict [("a.b.c", WrapStyle)]) st); reflexivity.
Defined.

(** ** Further properties: errors *)

(** Lines 73-85 and 142-146: on a 1-D mesh, a plan that is neither a style
    nor a dict raises the TypeError, and does so after the RNG bootstrap:
    the tracker installed by the bootstrap stays, the modules are not
    touched. *)
Theorem other_plan_type_raises_after_bootstrap module mesh st :
  ndim mesh = 1 ->
  parallelize_module module mesh PlanOther st =
  (Raise InvalidPlanTypeError, rng_bootstrap mesh st) /\
  heap (rng_bootstrap mesh st) = heap st.
Proof.
  intros Hdim. split; [|apply heap_rng_bootstrap].
  rewrite parallelize_module_unfold. unfold bind. now rewrite validate_1d.
Qed.

Lemma other_plan_type_raises_after_bootstrap_witness :
  ndim mesh1 = 1 /\
  parallelize_module 0 mesh1 PlanOther (state_of tree_flat) =
  (Raise InvalidPlanTypeError, rng_bootstrap mesh1 (state_of tree_flat)) /\
  heap (rng_bootstrap mesh1 (state_of tree_flat)) = heap (state_of tree_flat).
Proof.
  split; [reflexivity|].
  apply (other_plan_type_raises_after_bootstrap 0 mesh1 (state_of tree_flat)).
  reflexivity.
Defined.

Lemma dict_returns_module module mesh items st r :
  fst (parallelize_module module mesh (PlanDict items) st) = Return r -> r = module.
Proof.
  rewrite parallelize_module_unfold. unfold bind, ret.
  destruct (_validate_tp_mesh_dim mesh st) as [[[]| |] st1]; simpl; [|discriminate|discriminate].
  destruct (for_items parallelize_module mesh module items (rng_bootstrap mesh st1))
    as [[[]| |] st2]; simpl; [|discriminate|discriminate].
  now intros [= <-].
Qed.

Lemma last_nonempty_default {A} (l : list A) (d d' : A) :
  l <> [] -> List.last l d = List.last l d'.
Proof.
  induction l as [|a l IH]; [congruence|]. intros _.
  destruct l as [|b l]; [reflexivity|].
  change (List.last (b :: l) d = List.last (b :: l) d').
  apply IH. discriminate.
Qed.

(** Lines 90-141: on a 1-D mesh, a dict plan all of whose keys have a
    non-empty last segment (no key is empty or ends with a dot) raises
    nothing and returns the module it was given. *)
Theorem keys_with_last_segment_never_raise module mesh items st :
  ndim mesh = 1 ->
  Forall (fun kv => last_segment (fst kv) <> "") items ->
  fst (parallelize_module module mesh (PlanDict items) st) = Return module.
Proof.
  intros Hdim Hkeys.
  set (Kseg := fun segs : list string =>
                 Forall (fun seg => dot_free seg = true) segs /\
                 (segs <> [] -> List.last segs "" <> "")).
  assert (Hpost : post (fun _ => True) (fun _ => False)
                    (parallelize_module module mesh (PlanDict items))).
  { apply keys_post_parallelize_module
      with (K := fun path => last_segment path <> "") (Kseg := Kseg); auto.
    - intros path Hpath. split; [apply split_dot_dot_free | intros _; exact Hpath].
    - intros a rest [Hall Hlast]. inversion Hall as [|? ? Ha Hrest]; subst.
      split; [exact Hrest|]. intros Hne.
      rewrite (last_nonempty_default rest "" a Hne).
      rewrite <- last_cons_default with (d := ""). apply Hlast. discriminate.
    - intros rest [Hall Hlast] Hjoin.
      assert (Hne : rest <> []) by (intros ->; now apply Hjoin).
      unfold last_segment. rewrite split_join by assumption.
      now apply Hlast.
    - intros segs [_ Hlast] Hne Hempty. now apply (Hlast Hne). }
  destruct (Hpost st I) as (_ & Hfuel & Hexn).
  destruct (fst (parallelize_module module mesh (PlanDict items) st)) as [r|e|] eqn:Hres.
  - f_equal. now apply dict_returns_module with (mesh := mesh) (items := items) (st := st).
  - destruct (Hexn e eq_refl).
  - now destruct Hfuel.
Qed.

Lemma keys_with_last_segment_never_raise_witness :
  ndim mesh1 = 1 /\
  Forall (fun kv => last_segment (fst kv) <> "")
    [("a.*", InPlaceStyle); ("a.k1", WrapStyle); ("x.y", WrapStyle)] /\
  fst (parallelize_module 0 mesh1
         (PlanDict [("a.*", InPlaceStyle); ("a.k1", WrapStyle); ("x.y", WrapStyle)])
         (state_of tree_fanout)) = Return 0.
Proof.
  split; [reflexivity|].
  assert (H : Forall (fun kv : string * ParallelStyle => last_segment (fst kv) <> "")
                [("a.*", InPlaceStyle); ("a.k1", WrapStyle); ("x.y", WrapStyle)])
    by (repeat constructor; discriminate).
  split; [exact H|].
  apply (keys_with_last_segment_never_raise 0 mesh1 _ (state_of tree_fanout));
    [reflexivity | exact H].
Defined.

(** ** Further properties: the entries of a dict plan *)

Lemma for_items_app rec mesh module items1 items2 st :
  for_items rec mesh module (items1 ++ items2) st =
  (for_items rec mesh module items1 ;;; for_items rec mesh module items2) st.
Proof.
  revert st. induction items1 as [|[module_path style] items1 IH]; intros st; simpl.
  - reflexivity.
  - unfold bind.
    destruct (plan_item rec mesh style module module_path st) as [[[]|e|] st'];
      [|reflexivity|reflexivity].
    rewrite IH. reflexivity.
Qed.

(** After a call on a 1-D mesh the bootstrap has nothing left to do. *)
Lemma bootstrap_done_after_call module mesh plan st :
  ndim mesh = 1 ->
  rng_bootstrap mesh (snd (parallelize_module module mesh plan st)) =
  snd (parallelize_module module mesh plan st).
Proof.
  intros Hdim.
  destruct (rng_effect_of_call module mesh plan st Hdim) as [Ht Hn].
  pose proof (rng_bootstrap_idem mesh st) as Hidem.
  set (st2 := snd (parallelize_module module mesh plan st)) in *.
  unfold rng_bootstrap at 1. rewrite Ht.
  unfold rng_bootstrap at 1 in Hidem.
  destruct (is_rng_supported_mesh mesh &&
            negb (isinstance_tp (_rng_tracker (rng_bootstrap mesh st)))) eqn:Hc;
    [|reflexivity].
  apply (f_equal next_tracker_id) in Hidem. simpl in Hidem. lia.
Qed.

(** Lines 90-141: on a 1-D mesh, a dict plan does what a call with its
    first entries followed by a call with its remaining entries does,
    on the same module; if the first part raises, the second is not run
    and the state is the one reached at the raise. *)
Theorem dict_plan_is_sequential module mesh items1 items2 st :
  ndim mesh = 1 ->
  parallelize_module module mesh (PlanDict (items1 ++ items2)) st =
  (parallelize_module module mesh (PlanDict items1) ;;;
   parallelize_module module mesh (PlanDict items2)) st.
Proof.
  intros Hdim.
  pose proof (bootstrap_done_after_call module mesh (PlanDict items1) st Hdim) as Hb.
  unfold bind at 1.
  rewrite (parallelize_module_1d module mesh (PlanDict (items1 ++ items2)))
    by exact Hdim.
  rewrite (parallelize_module_1d module mesh (PlanDict items1)) in * by exact Hdim.
  unfold bind at 1. rewrite for_items_app. unfold bind in *.
  destruct (for_items parallelize_module mesh module items1 (rng_bootstrap mesh st))
    as [[[]|e|] st2]; simpl in *; [|reflexivity|reflexivity].
  rewrite (parallelize_module_1d module mesh (PlanDict items2)) by exact Hdim.
  rewrite Hb. reflexivity.
Qed.

Lemma dict_plan_is_sequential_witness :
  ndim mesh1 = 1 /\
  parallelize_module 0 mesh1
    (PlanDict ([("a.k1", WrapStyle)] ++ [("a.k2", InPlaceStyle); ("", WrapStyle)]))
    (state_of tree_fanout) =
  (parallelize_module 0 mesh1 (PlanDict [("a.k1", WrapStyle)]) ;;;
   parallelize_module 0 mesh1 (PlanDict [("a.k2", InPlaceStyle); ("", WrapStyle)]))
    (state_of tree_fanout).
Proof.
  split; [reflexivity|].
  apply (dict_plan_is_sequential 0 mesh1 [("a.k1", WrapStyle)]
           [("a.k2", InPlaceStyle); ("", WrapStyle)] (state_of tree_fanout)).
  reflexivity.
Defined.

(** ** Further properties: paths without a wildcard *)

Section LiteralPaths.
Variable rec : nat -> DeviceMesh -> Plan -> M nat.
Variable mesh : DeviceMesh.
Variable style : ParallelStyle.

Lemma while_literals_found prefix :
  forall name parent_module leaf_module atom st parent target,
    Forall (fun a => a <> "*") prefix ->
    name <> "*" ->
    resolve (heap st) leaf_module prefix = Some parent ->
    get_submodule (heap st) parent name = Some target ->
    while_path_splits rec mesh style (prefix ++ [name]) parent_module leaf_module atom st =
    (Return (parent, Some target, name), st).
Proof.
  induction prefix as [|a rest IH];
    intros name parent_module leaf_module atom st parent target Hall Hname Hres Hget.
  - simpl in Hres. injection Hres as <-.
    change ([] ++ [name]) with [name].
    rewrite while_literal_found with (sub := target);
      [reflexivity | now apply String.eqb_neq | exact Hget].
  - inversion Hall as [|? ? Ha Hrest]; subst. simpl in Hres.
    destruct (get_submodule (heap st) leaf_module a) as [sub|] eqn:Hsub; [|discriminate].
    change ((a :: rest) ++ [name]) with (a :: (rest ++ [name])).
    rewrite while_literal_found with (sub := sub);
      [|now apply String.eqb_neq | exact Hsub].
    now apply IH.
Qed.

End LiteralPaths.

Lemma assign_child_same name child cs :
  lookup_child name cs = Some child -> assign_child name child cs = cs.
Proof.
  induction cs as [|[n c] cs IH]; simpl; [discriminate|].
  destruct (String.eqb n name); [now intros [= ->]|].
  intros H. now rewrite IH.
Qed.

Lemma register_module_same parent name child h :
  get_submodule h parent name = Some child ->
  register_module parent name child h = h.
Proof.
  unfold get_submodule, register_module.
  destruct (h !! parent) as [md|] eqn:Hmd; [|discriminate].
  intros Hc. rewrite assign_child_same by exact Hc.
  destruct md. now apply insert_id.
Qed.

Lemma literal_key_steps
  root mesh style st module_path prefix name parent target :
  ndim mesh = 1 ->
  split_dot module_path = prefix ++ [name] ->
  Forall (fun a => a <> "*") prefix ->
  name <> "*" ->
  name <> "" ->
  resolve (heap st) root prefix = Some parent ->
  get_submodule (heap st) parent name = Some target ->
  parallelize_module root mesh (PlanDict [(module_path, style)]) st =
  (Return root,
   mkState
     (register_module parent name
        (snd (_apply style target mesh (heap st)))
        (fst (_apply style target mesh (heap st))))
     (_rng_tracker (rng_bootstrap mesh st))
     (next_tracker_id (rng_bootstrap mesh st))).
Proof.
  intros Hdim Hsplit Hall Hstar Hname Hres Hget.
  rewrite parallelize_module_1d by exact Hdim.
  rewrite <- (heap_rng_bootstrap mesh st) in Hres, Hget.
  unfold for_items, bind at 1 2. rewrite plan_item_after_check.
  rewrite Hsplit. unfold bind at 1.
  rewrite while_literals_found with (parent := parent) (target := target)
    by assumption.
  destruct (Nat.eqb (String.length name) 0) eqn:Hlen.
  { destruct name; [congruence | discriminate]. }
  unfold bind at 1.
  rewrite parallelize_module_1d by exact Hdim. rewrite rng_bootstrap_idem.
  unfold call_style. rewrite heap_rng_bootstrap.
  destruct (_apply style target mesh (heap st)) as [h1 r1]. reflexivity.
Qed.

(** Lines 91-140: on a 1-D mesh, for a key without wildcard whose segments
    lead from the root through existing children to a target, the style
    is applied once to the target and its result is registered in the
    target's parent under the last segment; the root is returned. *)
Theorem literal_key_applies_style_to_target
  root mesh style st module_path prefix name parent target :
  ndim mesh = 1 ->
  split_dot module_path = prefix ++ [name] ->
  Forall (fun a => a <> "*") prefix ->
  name <> "*" ->
  name <> "" ->
  resolve (heap st) root prefix = Some parent ->
  get_submodule (heap st) parent name = Some target ->
  parallelize_module root mesh (PlanDict [(module_path, style)]) st =
  (Return root,
   mkState
     (register_module parent name
        (snd (_apply style target mesh (heap st)))
        (fst (_apply style target mesh (heap st))))
     (_rng_tracker (rng_bootstrap mesh st))
     (next_tracker_id (rng_bootstrap mesh st))).
Proof. apply literal_key_steps. Qed.

Lemma literal_key_applies_style_to_target_witness :
  ndim mesh1 = 1 /\
  split_dot "a.k2" = ["a"] ++ ["k2"] /\
  Forall (fun a => a <> "*") ["a"] /\
  "k2" <> "*" /\
  "k2" <> "" /\
  resolve (heap (state_of tree_fanout)) 0 ["a"] = Some 1 /\
  get_submodule (heap (state_of tree_fanout)) 1 "k2" = Some 3 /\
  parallelize_module 0 mesh1 (PlanDict [("a.k2", WrapStyle)]) (state_of tree_fanout) =
  (Return 0,
   mkState
     (register_module 1 "k2"
        (snd (_apply WrapStyle 3 mesh1 (heap (state_of tree_fanout))))
        (fst (_apply WrapStyle 3 mesh1 (heap (state_of tree_fanout)))))
     (_rng_tracker (rng_bootstrap mesh1 (state_of tree_fanout)))
     (next_tracker_id (rng_bootstrap mesh1 (state_of tree_fanout)))).
Proof.
  assert (H1 : Forall (fun a : string => a <> "*") ["a"])
    by (repeat constructor; discriminate).
  assert (H2 : "k2" <> "*") by discriminate.
  assert (H3 : "k2" <> "") by discriminate.
  split; [reflexivity|]. split; [reflexivity|]. split; [exact H1|].
  split; [exact H2|]. split; [exact H3|].
  split; [reflexivity|]. split; [reflexivity|].
  apply (literal_key_applies_style_to_target 0 mesh1 WrapStyle
           (state_of tree_fanout) "a.k2" ["a"] "k2" 1 3);
    (reflexivity || assumption).
Defined.



(** Lines 135-140: when the style hands back the module it was given and
    leaves it registered in its parent, the registration changes nothing:
    the store of modules after the call is the one the style left. *)
Theorem in_place_style_keeps_tree_shape
  root mesh style st module_path prefix name parent target :
  ndim mesh = 1 ->
  split_dot module_path = prefix ++ [name] ->
  Forall (fun a => a <> "*") prefix ->
  name <> "*" ->
  name <> "" ->
  resolve (heap st) root prefix = Some parent ->
  get_submodule (heap st) parent name = Some target ->
  snd (_apply style target mesh (heap st)) = target ->
  get_submodule (fst (_apply style target mesh (heap st))) parent name = Some target ->
  parallelize_module root mesh (PlanDict [(module_path, style)]) st =
  (Return root,
   mkState (fst (_apply style target mesh (heap st)))
     (_rng_tracker (rng_bootstrap mesh st))
     (next_tracker_id (rng_bootstrap mesh st))).
Proof.
  intros Hdim Hsplit Hall Hstar Hname Hres Hget Hsame Hkept.
  rewrite (literal_key_steps root mesh style st module_path prefix name parent target)
    by assumption.
  rewrite Hsame. now rewrite register_module_same.
Qed.

Lemma in_place_style_keeps_tree_shape_witness :
  ndim mesh1 = 1 /\
  split_dot "a.k2" = ["a"] ++ ["k2"] /\
  Forall (fun a => a <> "*") ["a"] /\
  "k2" <> "*" /\
  "k2" <> "" /\
  resolve (heap (state_of tree_fanout)) 0 ["a"] = Some 1 /\
  get_submodule (heap (state_of tree_fanout)) 1 "k2" = Some 3 /\
  snd (_apply InPlaceStyle 3 mesh1 (heap (state_of tree_fanout))) = 3 /\
  get_submodule (fst (_apply InPlaceStyle 3 mesh1 (heap (state_of tree_fanout))))
    1 "k2" = Some 3 /\
  parallelize_module 0 mesh1 (PlanDict [("a.k2", InPlaceStyle)]) (state_of tree_fanout) =
  (Return 0,
   mkState (fst (_apply InPlaceStyle 3 mesh1 (heap (state_of tree_fanout))))
     (_rng_tracker (rng_bootstrap mesh1 (state_of tree_fanout)))
     (next_tracker_id (rng_bootstrap mesh1 (state_of tree_fanout)))).
Proof.
  assert (H1 : Forall (fun a : string => a <> "*") ["a"])
    by (repeat constructor; discriminate).
  assert (H2 : "k2" <> "*") by discriminate.
  assert (H3 : "k2" <> "") by discriminate.
  split; [reflexivity|]. split; [reflexivity|]. split; [exact H1|].
  split; [exact H2|]. split; [exact H3|].
  split; [reflexivity|]. split; [reflexivity|].
  split; [reflexivity|]. split; [reflexivity|].
  apply (in_place_style_keeps_tree_shape 0 mesh1 InPlaceStyle
           (state_of tree_fanout) "a.k2" ["a"] "k2" 1 3);
    (reflexivity || assumption).
Defined.

(** ** Further properties: depth of the recursion *)

(** Lines 98-110: each recursive call with a dict gets a key shorter than
    the one at hand, so the calls nest at most two deeper than the longest
    key has characters (one for a plan that is no dict): with that many
    nested calls allowed, or more, the run is the same and is never cut
    short. *)
Theorem nested_calls_bounded_by_key_length fuel module mesh plan st :
  plan_fuel plan <= fuel ->
  parallelize_module_fuel fuel module mesh plan st =
  parallelize_module module mesh plan st /\
  fst (parallelize_module_fuel fuel module mesh plan st) <> OutOfFuel.
Proof.
  intros Hfuel.
  rewrite parallelize_module_enough_fuel by exact Hfuel.
  split; [reflexivity | apply parallelize_module_total].
Qed.

Lemma nested_calls_bounded_by_key_length_witness :
  plan_fuel (PlanDict [("*.*.lin", InPlaceStyle)]) <= 9 /\
  parallelize_module_fuel 9 0 mesh1 (PlanDict [("*.*.lin", InPlaceStyle)])
    (state_of tree_irregular) =
  parallelize_module 0 mesh1 (PlanDict [("*.*.lin", InPlaceStyle)])
    (state_of tree_irregular) /\
  fst (parallelize_module_fuel 9 0 mesh1 (PlanDict [("*.*.lin", InPlaceStyle)])
         (state_of tree_irregular)) <> OutOfFuel.
Proof.
  split; [simpl; lia|].
  apply (nested_calls_bounded_by_key_length 9 0 mesh1
           (PlanDict [("*.*.lin", InPlaceStyle)]) (state_of tree_irregular)).
  simpl. lia.
Defined.
